(** * A shallow embedding of the GraphQL client's operation orchestrator

    The development follows [graphql.go]: the [Client], its single worker
    [do] (behind [Query] and [Mutate]), the [GraphQLErrors] failure value and
    the [OptionError] wrapper.  Everything [do] reaches outside the package
    (the JSON codec, the HTTP transport, the query compiler and the response
    materializer) is a field of [Collaborators], so every theorem holds for
    all collaborators; the errors they return keep their dynamic type. *)

From Stdlib Require Import ZArith Strings.Byte Strings.String.
From stdpp Require Import gmap strings list fin_maps sorting pretty.

Set Warnings "-register-all".

Local Open Scope Z_scope.
Local Open Scope string_scope.
Local Open Scope list_scope.

(** ** JSON values, as trees *)

Inductive json :=
| JNull
| JBool (b : bool)
| JNumber (literal : string)
| JString (s : string)
| JArray (items : list json)
| JObject (members : list (string * json)).

(** Member access of an object: the first member carrying the key. *)
Fixpoint assoc (k : string) (members : list (string * json)) : option json :=
  match members with
  | [] => None
  | (k', j) :: rest => if decide (k = k') then Some j else assoc k rest
  end.

Definition member (k : string) (j : json) : option json :=
  match j with
  | JObject members => assoc k members
  | _ => None
  end.

(** ** The protocol errors of a response *)

Record Location := mkLocation { Line : Z; Column : Z }.

(** One element of the anonymous struct slice [GraphQLErrors]. *)
Record GraphQLError := mkGraphQLError {
  Message : string;
  Locations : list Location;
  Path : list json;
  Extensions : gmap string json
}.

Definition GraphQLErrors := list GraphQLError.

(** A Go call either returns or panics. *)
Inductive outcome (A : Type) :=
| Returned (a : A)
| Panicked (reason : string).
Arguments Returned {A} a.
Arguments Panicked {A} reason.

(** [func (e GraphQLErrors) Error() string { return e[0].Message }]:
    indexing an empty slice panics. *)
Definition GraphQLErrors_Error (e : GraphQLErrors) : outcome string :=
  match e !! 0%nat with
  | Some e0 => Returned (Message e0)
  | None => Panicked "runtime error: index out of range [0] with length 0"
  end.

(** [type operationType uint8], with the two constants given by [iota]. *)
Definition operationType := Z.
Definition queryOperation : operationType := 0.
Definition mutationOperation : operationType := 1.

Section Graphql.

(** The value behind the pointer [v] that a call populates; the dynamic
    values of [map[string]any]; [context.Context]; and the error values of
    the types declared outside this package (by the codec, [net/http],
    [io], [jsonutil], or the caller's own code). *)
Context {Target Any Ctx ExtErr : Type}.

(** *** Error values

    A non-nil [error] by its dynamic type: a value of a type declared
    elsewhere, an [*OptionError], a plain message such as [fmt.Errorf]
    builds, or a [GraphQLErrors].  Any function returning an [error] may return any of
    them, so every collaborator below is typed with [error_value]; the
    interface value [nil] is [None]. *)
Inductive error_value :=
| Foreign (e : ExtErr)
| OptionErrorPtr (oe : OptionError)
| FmtError (msg : string)
| ProtocolErrors (es : GraphQLErrors)
with OptionError :=
| mkOptionError (Err : option error_value).

Definition error := option error_value.

Definition Err (e : OptionError) : error :=
  match e with mkOptionError err => err end.

(** [func (e *OptionError) Unwrap() error { return e.Err }] *)
Definition OptionError_Unwrap (e : OptionError) : error := Err e.

(** *** The data [do] handles *)

(** The anonymous struct [in] (lines 57-63) with its two tagged fields. *)
Record inStruct := mkIn {
  Query : string;                          (* `json:"query"` *)
  Variables : option (gmap string Any)     (* `json:"variables,omitempty"` *)
}.

(** The fields of [http.Request] this package touches. *)
Record Request := mkRequest {
  req_ctx : Ctx;
  Method : string;
  URL : string;                       (* the parsed URL, as text *)
  Header : gmap string (list string);
  Body : list byte
}.

(** [RequestOption], a func from a request pointer to an error: the hook
    sees the request through the pointer, so it yields the request as it
    leaves it together with its error ([None] for nil). *)
Definition RequestOption := Request -> Request * error.

(** [resp.Body]: the bytes the stream delivers, then end of file or a
    read failure. *)
Record Reader := mkReader {
  content : list byte;
  read_err : option error_value
}.

Record Response := mkResponse {
  Status : string;
  StatusCode : Z;
  RespBody : Reader
}.

(** The [Do] method of [*http.Client]. *)
Definition Transport := Request -> error_value + Response.

Record Client := mkClient {
  url : string;
  httpClient : Transport;
  requestOptions : list RequestOption
}.

(** The local [out] (lines 94-97) that the response is decoded into; a
    nil [Data] pointer (member absent, or [null]) is [None]. *)
Record outStruct := mkOut {
  Data : option (list byte);
  Errors : GraphQLErrors
}.

(** *** Collaborators

    What [do] calls outside this file: the standard library and the
    rest of this repository. *)
Record Collaborators := mkCollaborators {
  (** [fmt]'s rendering of an error under the verb [%v]. *)
  fmt_v : error -> string;
  (** The codec's treatment of one dynamic value; unsupported values
      (channels, functions, ...) make it fail. *)
  json_Marshal_any : Any -> error_value + json;
  (** The codec's rendering of a tree as bytes. *)
  json_bytes : json -> list byte;
  (** [http.DefaultClient]. *)
  http_DefaultClient : Transport;
  (** [constructQuery] and [constructMutation] (query.go). *)
  constructQuery : Target -> option (gmap string Any) -> string;
  constructMutation : Target -> option (gmap string Any) -> string;
  (** What [http.NewRequestWithContext] makes of its context, method and
      URL text: a failure (nil context, bad method, unparsable URL), or
      the parsed URL that the request carries, as its normalised text. *)
  http_parse : Ctx -> string -> string -> error_value + string;
  (** [strconv]'s quoting, which the verb [%q] applies to a byte slice. *)
  strconv_Quote : list byte -> string;
  (** [json.NewDecoder(resp.Body).Decode(&out)]. *)
  json_Decode : Reader -> error_value + outStruct;
  (** [jsonutil.UnmarshalGraphQL(data, v)]: the value behind [v] as the
      call leaves it, and its error. *)
  jsonutil_UnmarshalGraphQL :
    list byte -> Target -> Target * option error_value
}.

Variable env : Collaborators.

(** [func (e *OptionError) Error() string] *)
Definition OptionError_Error (e : OptionError) : string :=
  "request option error: " +:+ fmt_v env (Err e).

(** [NewClient]; a nil [httpClient] is [None]. *)
Definition NewClient (url : string) (httpClient : option Transport)
    (opts : list RequestOption) : Client :=
  let httpClient :=
    match httpClient with
    | None => http_DefaultClient env
    | Some t => t
    end in
  {| url := url; httpClient := httpClient; requestOptions := opts |}.

(** *** Encoding the outbound envelope (line 65) *)

(** [len] of a map; the nil map has length 0. *)
Definition map_len (m : option (gmap string Any)) : nat :=
  match m with
  | None => 0%nat
  | Some m => size m
  end.

(** The emptiness test behind [omitempty], at map type. *)
Definition isEmptyValue (m : option (gmap string Any)) : bool :=
  Nat.eqb (map_len m) 0.

(** Encoding the members of a map, in the given order, stopping at the
    first value the codec refuses. *)
Fixpoint marshal_members (kvs : list (string * Any))
  : error_value + list (string * json) :=
  match kvs with
  | [] => inr []
  | (k, a) :: rest =>
      match json_Marshal_any env a with
      | inl e => inl e
      | inr j =>
          match marshal_members rest with
          | inl e => inl e
          | inr js => inr ((k, j) :: js)
          end
      end
  end.

(** The codec writes the keys of a map in sorted order. *)
Definition key_le (x y : string * Any) : Prop :=
  String.leb x.1 y.1 = true.

Global Instance key_le_dec x y : Decision (key_le x y).
Proof. unfold key_le. apply _. Defined.

Definition sorted_entries (m : gmap string Any) : list (string * Any) :=
  merge_sort key_le (map_to_list m).

(** A non-nil map becomes an object; the nil map becomes [null]. *)
Definition marshal_map (m : option (gmap string Any)) : error_value + json :=
  match m with
  | None => inr JNull
  | Some m =>
      match marshal_members (sorted_entries m) with
      | inl e => inl e
      | inr js => inr (JObject js)
      end
  end.

(** The tree the encoder produces for [in]: the field tagged [query]
    always, the field tagged [variables] unless [omitempty] drops it. *)
Definition marshal_in (i : inStruct) : error_value + json :=
  let fields := [("query", JString (Query i))] in
  if isEmptyValue (Variables i) then inr (JObject fields)
  else
    match marshal_map (Variables i) with
    | inl e => inl e
    | inr vars => inr (JObject (fields ++ [("variables", vars)]))
    end.

(** [json.NewEncoder(&buf).Encode(in)]: the rendered tree followed by a
    newline. *)
Definition json_Encode (i : inStruct) : error_value + list byte :=
  match marshal_in i with
  | inl e => inl e
  | inr j => inr (json_bytes env j ++ [x0a])
  end.

(** *** The standard library calls with a fixed meaning *)

Definition http_NewRequestWithContext (ctx : Ctx) (method url : string)
    (body : list byte) : error_value + Request :=
  match http_parse env ctx method url with
  | inl e => inl e
  | inr u =>
      inr {| req_ctx := ctx; Method := method; URL := u;
             Header := ∅; Body := body |}
  end.

(** [req.Header.Set(key, value)] for a key in canonical form. *)
Definition Header_Set (key value : string) (req : Request) : Request :=
  {| req_ctx := req_ctx req; Method := Method req; URL := URL req;
     Header := <[key := [value]]> (Header req); Body := Body req |}.

(** [io.ReadAll]: what was read, and the failure that stopped it. *)
Definition io_ReadAll (r : Reader) : list byte * option error_value :=
  (content r, read_err r).

Definition http_StatusOK : Z := 200.

(** *** The world of a call

    The value behind the caller's pointer, and the calls made to the
    collaborators, oldest first. *)
Inductive Event :=
| EvOption (req : Request)        (* opt(req) *)
| EvDo (req : Request)            (* c.httpClient.Do(req) *)
| EvReadAll                       (* io.ReadAll(resp.Body) *)
| EvDecode                        (* Decode(&out) *)
| EvUnmarshal (data : list byte)  (* jsonutil.UnmarshalGraphQL(data, v) *)
| EvClose.                        (* resp.Body.Close() *)

Record World := mkWorld {
  target : Target;
  trace : list Event
}.

(** A computation either returns an error to the caller of [do]
    ([inl]) or goes on with a value ([inr]). *)
Definition M (A : Type) : Type := World -> (error_value + A) * World.

Definition ret {A} (a : A) : M A := fun w => (inr a, w).

Definition fail {A} (e : error_value) : M A := fun w => (inl e, w).

Definition bind {A B} (m : M A) (k : A -> M B) : M B :=
  fun w =>
    match m w with
    | (inl e, w') => (inl e, w')
    | (inr a, w') => k a w'
    end.

Notation "x <- m ;; k" := (bind m (fun x => k))
  (at level 100, m at next level, right associativity).
Notation "m ;; k" := (bind m (fun _ => k))
  (at level 100, right associativity).

(** The world after further calls to collaborators. *)
Definition extend (evs : list Event) (w : World) : World :=
  {| target := target w; trace := trace w ++ evs |}.

Definition record (ev : Event) (w : World) : World := extend [ev] w.

Definition emit (ev : Event) : M unit :=
  fun w => (inr tt, record ev w).

(** [if err != nil { return err }] after a collaborator's call: the
    error goes to the caller as it is. *)
Definition try {A} (r : error_value + A) : M A :=
  match r with
  | inl e => fail e
  | inr a => ret a
  end.

(** [defer d]: [d] runs when the rest of the function returns. *)
Definition deferred {A} (d : M unit) (rest : M A) : M A :=
  fun w => let '(r, w') := rest w in (r, snd (d w')).

(** The materializer acting on the value behind [v] (lines 104-108). *)
Definition unmarshal (data : list byte) : M unit :=
  fun w =>
    let w1 := record (EvUnmarshal data) w in
    let '(t', err) := jsonutil_UnmarshalGraphQL env data (target w1) in
    let w2 := {| target := t'; trace := trace w1 |} in
    match err with
    | Some e => (inl e, w2)
    | None => (inr tt, w2)
    end.

(** *** [do], piece by piece *)

(** Lines 50-56: the [switch] over [op] has no default, so any other
    value leaves [query] empty. *)
Definition compile (op : operationType) (v : Target)
    (variables : option (gmap string Any)) : string :=
  if (op =? queryOperation)%Z then constructQuery env v variables
  else if (op =? mutationOperation)%Z then constructMutation env v variables
  else "".

(** Lines 57-73: the request as it stands before any option runs. *)
Definition build_request (c : Client) (ctx : Ctx) (op : operationType)
    (variables : option (gmap string Any)) : M Request :=
  fun w =>
    (let query := compile op (target w) variables in
     let in_ := {| Query := query; Variables := variables |} in
     buf <- try (json_Encode in_) ;;
     req <- try (http_NewRequestWithContext ctx "POST" (url c) buf) ;;
     ret (Header_Set "Content-Type" "application/json" req)) w.

(** Lines 79-83: the [range] loop over [allOpts]. *)
Fixpoint range_opts (allOpts : list RequestOption) (req : Request)
  : M Request :=
  match allOpts with
  | [] => ret req
  | opt :: rest =>
      emit (EvOption req) ;;
      let '(req', err) := opt req in
      match err with
      | Some err => fail (OptionErrorPtr (mkOptionError (Some err)))
      | None => range_opts rest req'
      end
  end.

(** Lines 110-113. *)
Definition aggregate (errs : GraphQLErrors) : M unit :=
  if (0 <? length errs)%nat then fail (ProtocolErrors errs) else ret tt.

(** Lines 90-113: what happens to a response. *)
Definition handle_response (resp : Response) : M unit :=
  if negb (StatusCode resp =? http_StatusOK)%Z then
    emit EvReadAll ;;
    let '(body, _) := io_ReadAll (RespBody resp) in
    fail (FmtError ("non-200 OK status code: " +:+ Status resp
                    +:+ " body: " +:+ strconv_Quote env body))
  else
    emit EvDecode ;;
    out <- try (json_Decode env (RespBody resp)) ;;
    match Data out with
    | Some data => unmarshal data
    | None => ret tt
    end ;;
    aggregate (Errors out).

Definition do_M (c : Client) (ctx : Ctx) (op : operationType)
    (variables : option (gmap string Any)) (opts : list RequestOption)
  : M unit :=
  req <- build_request c ctx op variables ;;
  let allOpts := ([] ++ requestOptions c) ++ opts in
  req <- range_opts allOpts req ;;
  emit (EvDo req) ;;
  resp <- try (httpClient c req) ;;
  deferred (emit EvClose) (handle_response resp).

(** The [error] a computation hands to the caller; [nil] is [None]. *)
Definition returned (r : (error_value + unit) * World) : error * World :=
  match r with
  | (inl e, w) => (Some e, w)
  | (inr _, w) => (None, w)
  end.

(** [func (c *Client) do(ctx, op, v, variables, opts) error], run in the
    world [w] whose [target] is the value behind [v]. *)
Definition do (c : Client) (ctx : Ctx) (op : operationType)
    (variables : option (gmap string Any)) (opts : list RequestOption)
    (w : World) : error * World :=
  returned (do_M c ctx op variables opts w).

(** [Query] and [Mutate]. *)
Definition Client_Query (c : Client) (ctx : Ctx)
    (variables : option (gmap string Any)) (opts : list RequestOption)
    (w : World) : error * World :=
  do c ctx queryOperation variables opts w.

Definition Client_Mutate (c : Client) (ctx : Ctx)
    (variables : option (gmap string Any)) (opts : list RequestOption)
    (w : World) : error * World :=
  do c ctx mutationOperation variables opts w.

(** *** Vocabulary of the statements *)

(** The hooks of [os], run in order from [r], all return nil; [evs] are
    their calls and [r'] is the request they leave. *)
Inductive opts_ok : list RequestOption -> Request -> list Event -> Request -> Prop :=
| opts_ok_nil r : opts_ok [] r [] r
| opts_ok_cons o os r r1 evs r' :
    o r = (r1, None) ->
    opts_ok os r1 evs r' ->
    opts_ok (o :: os) r (EvOption r :: evs) r'.

(** The call gets as far as handing [req] to the transport: the envelope
    is encoded, the request built, and every option returns nil, the
    client's before the call's. *)
Definition sends (c : Client) (ctx : Ctx) (op : operationType)
    (variables : option (gmap string Any)) (opts : list RequestOption)
    (w : World) (evs : list Event) (req : Request) : Prop :=
  exists req0 evs1 mid evs2,
    (build_request c ctx op variables w).1 = inr req0 /\
    opts_ok (requestOptions c) req0 evs1 mid /\
    opts_ok opts mid evs2 req /\
    evs = evs1 ++ evs2.

(** ... and the transport answers [resp]. *)
Definition answered (c : Client) (ctx : Ctx) (op : operationType)
    (variables : option (gmap string Any)) (opts : list RequestOption)
    (w : World) (resp : Response) : Prop :=
  exists evs req,
    sends c ctx op variables opts w evs req /\ httpClient c req = inr resp.

(** ... with status 200 and a body that decodes to the envelope [out]. *)
Definition enveloped (c : Client) (ctx : Ctx) (op : operationType)
    (variables : option (gmap string Any)) (opts : list RequestOption)
    (w : World) (out : outStruct) : Prop :=
  exists resp,
    answered c ctx op variables opts w resp /\
    StatusCode resp = http_StatusOK /\
    json_Decode env (RespBody resp) = inr out.

(** Calls of the transport among the events. *)
Fixpoint count_Do (evs : list Event) : nat :=
  match evs with
  | [] => 0
  | EvDo _ :: rest => S (count_Do rest)
  | _ :: rest => count_Do rest
  end.

(** Whether the envelope was decoded, or the materializer run. *)
Definition is_parse (ev : Event) : bool :=
  match ev with
  | EvDecode | EvUnmarshal _ => true
  | _ => false
  end.

Definition is_unmarshal (ev : Event) : bool :=
  match ev with
  | EvUnmarshal _ => true
  | _ => false
  end.

(** Materialization of the envelope's data, if any, does not fail. *)
Definition materializes (out : outStruct) (t : Target) : Prop :=
  match Data out with
  | Some data => (jsonutil_UnmarshalGraphQL env data t).2 = None
  | None => True
  end.

(** The failures a call can meet before materialization begins. *)
Inductive early_failure (c : Client) (ctx : Ctx) (op : operationType)
    (variables : option (gmap string Any)) (opts : list RequestOption)
    (w : World) : Prop :=
| fails_encoding e :
    json_Encode {| Query := compile op (target w) variables;
                   Variables := variables |} = inl e ->
    early_failure c ctx op variables opts w
| fails_construction buf e :
    json_Encode {| Query := compile op (target w) variables;
                   Variables := variables |} = inr buf ->
    http_NewRequestWithContext ctx "POST" (url c) buf = inl e ->
    early_failure c ctx op variables opts w
| fails_option req0 pre o post evs r r1 e :
    (build_request c ctx op variables w).1 = inr req0 ->
    requestOptions c ++ opts = pre ++ o :: post ->
    opts_ok pre req0 evs r ->
    o r = (r1, Some e) ->
    early_failure c ctx op variables opts w
| fails_transport evs req e :
    sends c ctx op variables opts w evs req ->
    httpClient c req = inl e ->
    early_failure c ctx op variables opts w
| fails_status resp :
    answered c ctx op variables opts w resp ->
    StatusCode resp <> http_StatusOK ->
    early_failure c ctx op variables opts w
| fails_parse resp e :
    answered c ctx op variables opts w resp ->
    StatusCode resp = http_StatusOK ->
    json_Decode env (RespBody resp) = inl e ->
    early_failure c ctx op variables opts w.

(** The calls a run makes once the options are through: none (the run
    stopped before the transport), the transport alone (it failed), or
    the transport followed by what line 90 onwards does with the answer;
    the body is closed last whenever there was an answer. *)
Definition is_option (ev : Event) : bool :=
  match ev with
  | EvOption _ => true
  | _ => false
  end.

Inductive call_shape : list Event -> Prop :=
| shape_stopped : call_shape []
| shape_unanswered req : call_shape [EvDo req]
| shape_status req : call_shape [EvDo req; EvReadAll; EvClose]
| shape_decoded req : call_shape [EvDo req; EvDecode; EvClose]
| shape_materialized req data :
    call_shape [EvDo req; EvDecode; EvUnmarshal data; EvClose].

(** A collaborator hands [err] back to the call, which returns it as it
    is: the [return err] of lines 67, 71, 87, 101 and 107. *)
Inductive handed_back (c : Client) (ctx : Ctx) (op : operationType)
    (variables : option (gmap string Any)) (opts : list RequestOption)
    (w : World) (err : error_value) : Prop :=
| back_encoding :
    json_Encode {| Query := compile op (target w) variables;
                   Variables := variables |} = inl err ->
    handed_back c ctx op variables opts w err
| back_construction buf :
    json_Encode {| Query := compile op (target w) variables;
                   Variables := variables |} = inr buf ->
    http_NewRequestWithContext ctx "POST" (url c) buf = inl err ->
    handed_back c ctx op variables opts w err
| back_transport evs req :
    sends c ctx op variables opts w evs req ->
    httpClient c req = inl err ->
    handed_back c ctx op variables opts w err
| back_decoding resp :
    answered c ctx op variables opts w resp ->
    StatusCode resp = http_StatusOK ->
    json_Decode env (RespBody resp) = inl err ->
    handed_back c ctx op variables opts w err
| back_materializing out data :
    enveloped c ctx op variables opts w out ->
    Data out = Some data ->
    (jsonutil_UnmarshalGraphQL env data (target w)).2 = Some err ->
    handed_back c ctx op variables opts w err.

End Graphql.

Arguments Collaborators : clear implicits.
Arguments error_value : clear implicits.
Arguments error : clear implicits.

(** * A concrete set of collaborators

    A small closed world in which the calls can be run: targets are
    strings, dynamic values are integers or channels (which the codec
    refuses), foreign errors are their messages. *)

Module Demo.

Inductive value :=
| VInt (z : Z)
| VChan.

Definition failure (msg : string) : error_value string := Foreign msg.

Definition marshal_any (v : value) : error_value string + json :=
  match v with
  | VInt z => inr (JNumber (pretty z))
  | VChan => inl (failure "json: unsupported type: chan int")
  end.

Definition render (j : json) : list byte :=
  match j with
  | JObject members => x7b :: flat_map (fun m => list_byte_of_string m.1) members ++ [x7d]
  | _ => []
  end.

Definition refuse : @Transport unit string :=
  fun _ => inl (failure "no network").

(** A toy parser of URLs: a lone colon has no scheme; any other text is
    kept as it is. *)
Definition parse (_ : unit) (_ url : string) : error_value string + string :=
  if decide (url = ":") then inl (failure "parse: missing protocol scheme")
  else inr url.

Definition boom : GraphQLError :=
  {| Message := "boom"; Locations := [{| Line := 1; Column := 2 |}];
     Path := [JString "viewer"]; Extensions := ∅ |}.

Definition later : GraphQLError :=
  {| Message := "later"; Locations := []; Path := []; Extensions := ∅ |}.

(** A toy wire format: the first byte of the body selects the envelope;
    a failure of the reader is handed back as it is. *)
Definition decode (r : @Reader string) : error_value string + outStruct :=
  match read_err r with
  | Some e => inl e
  | None =>
      match content r with
      | [x01] => inr {| Data := Some [x68; x69]; Errors := [boom; later] |}
      | [x02] => inr {| Data := None; Errors := [boom; later] |}
      | [x03] => inr {| Data := Some [x68; x69]; Errors := [] |}
      | [x04] => inr {| Data := Some []; Errors := [boom] |}
      | _ => inl (failure "invalid character")
      end
  end.

(** A toy materializer: it overwrites the target with the data, and
    refuses empty data after clearing the target. *)
Definition materialize (data : list byte) (t : string)
  : string * option (error_value string) :=
  match data with
  | [] => ("", Some (failure "unexpected end of JSON input"))
  | _ => (string_of_list_byte data, None)
  end.

(** A toy quoting: the bytes between two double quotes. *)
Definition dq : string := String (Ascii.ascii_of_nat 34) "".

Definition quote (bs : list byte) : string :=
  dq +:+ string_of_list_byte bs +:+ dq.

Definition env : Collaborators string value unit string :=
  {| fmt_v := fun e => match e with None => "<nil>" | Some _ => "error" end;
     json_Marshal_any := marshal_any;
     json_bytes := render;
     http_DefaultClient := refuse;
     constructQuery := fun _ _ => "{viewer{login}}";
     constructMutation := fun _ _ => "mutation{touch{id}}";
     http_parse := parse;
     strconv_Quote := quote;
     json_Decode := decode;
     jsonutil_UnmarshalGraphQL := materialize |}.

(** A transport with a canned answer. *)
Definition canned (answer : error_value string + @Response string)
  : @Transport unit string :=
  fun _ => answer.

Definition ok (body : list byte) : error_value string + @Response string :=
  inr {| Status := "200 OK"; StatusCode := 200;
         RespBody := {| content := body; read_err := None |} |}.

Definition teapot : error_value string + @Response string :=
  inr {| Status := "418 I'm a teapot"; StatusCode := 418;
         RespBody := {| content := [x6e; x6f]; read_err := None |} |}.

(** A 200 answer whose body cannot be read: the reader fails with an
    empty [GraphQLErrors] value. *)
Definition unreadable : error_value string + @Response string :=
  inr {| Status := "200 OK"; StatusCode := 200;
         RespBody := {| content := [];
                        read_err := Some (ProtocolErrors []) |} |}.

(** Request options: one that sets a header, one that fails. *)
Definition with_header (key value : string) : @RequestOption unit string :=
  fun req => (Header_Set key value req, None).

Definition failing (msg : string) : @RequestOption unit string :=
  fun req => (req, Some (FmtError msg)).

Definition client (answer : error_value string + @Response string)
    (opts : list (@RequestOption unit string)) : @Client unit string :=
  NewClient env "https://example.test/graphql" (Some (canned answer)) opts.

Definition start : @World string unit :=
  {| target := "before"; trace := [] |}.

Definition bound : gmap string value :=
  {[ "n" := VInt 5; "after" := VInt 7 ]}.

Definition bindings : option (gmap string value) := Some bound.

(** Bindings the codec refuses. *)
Definition refused : option (gmap string value) := Some {[ "n" := VChan ]}.

(** The same collaborators, with one document for both operation
    kinds. *)
Definition env_same : Collaborators string value unit string :=
  {| fmt_v := fmt_v env;
     json_Marshal_any := marshal_any;
     json_bytes := render;
     http_DefaultClient := refuse;
     constructQuery := constructQuery env;
     constructMutation := constructQuery env;
     http_parse := parse;
     strconv_Quote := quote;
     json_Decode := decode;
     jsonutil_UnmarshalGraphQL := materialize |}.

End Demo.

(** * Properties of [do] *)

Section Properties.

Context {Target Any Ctx ExtErr : Type}.
Variable env : Collaborators Target Any Ctx ExtErr.

Implicit Types (c : @Client Ctx ExtErr) (ctx : Ctx) (op : operationType).
Implicit Types (variables : option (gmap string Any)).
Implicit Types (opts os pre post rest : list (@RequestOption Ctx ExtErr)).
Implicit Types (o : @RequestOption Ctx ExtErr) (e err : error_value ExtErr).
Implicit Types (w : @World Target Ctx) (req : @Request Ctx).
Implicit Types (evs : list (@Event Ctx)).

(** ** Worlds and events *)

Lemma extend_nil w : extend [] w = w.
Proof. destruct w; unfold extend; simpl. by rewrite app_nil_r. Qed.

Lemma extend_extend evs1 evs2 w :
  extend evs2 (extend evs1 w) = extend (evs1 ++ evs2) w.
Proof. unfold extend; simpl. by rewrite app_assoc. Qed.

Lemma count_Do_app evs1 evs2 :
  count_Do (evs1 ++ evs2) = (count_Do evs1 + count_Do evs2)%nat.
Proof.
  induction evs1 as [|ev evs1 IH]; simpl; [done|].
  destruct ev; simpl; rewrite ?IH; done.
Qed.

Lemma opts_ok_events os req evs req' :
  opts_ok os req evs req' ->
  count_Do evs = 0%nat /\ Forall (fun ev => is_parse ev = false) evs.
Proof.
  induction 1 as [|o os r r1 evs r' Ho _ [IH1 IH2]]; simpl.
  - split; [done | constructor].
  - split; [done | by constructor].
Qed.

Lemma opts_ok_app os1 os2 req evs1 mid evs2 req' :
  opts_ok os1 req evs1 mid ->
  opts_ok os2 mid evs2 req' ->
  opts_ok (os1 ++ os2) req (evs1 ++ evs2) req'.
Proof.
  induction 1 as [|o os r r1 evs r' Ho _ IH]; simpl; intros H2; [done|].
  econstructor; eauto.
Qed.

Lemma opts_ok_app_inv os1 os2 req evs req' :
  opts_ok (os1 ++ os2) req evs req' ->
  exists evs1 mid evs2,
    opts_ok os1 req evs1 mid /\ opts_ok os2 mid evs2 req' /\
    evs = evs1 ++ evs2.
Proof.
  revert req evs. induction os1 as [|o os1 IH]; simpl; intros req evs H.
  - exists [], req, evs. split; [constructor | done].
  - inversion H as [|? ? ? r1 evs' ? Ho Hrest]; subst.
    destruct (IH _ _ Hrest) as (evs1 & mid & evs2 & H1 & H2 & ->).
    exists (EvOption req :: evs1), mid, evs2.
    split; [econstructor; eauto | done].
Qed.

(** ** The loop over the options *)

Lemma range_opts_ok os req evs req' :
  opts_ok os req evs req' ->
  forall rest w,
    range_opts (os ++ rest) req w = range_opts rest req' (extend evs w).
Proof.
  induction 1 as [|o os r r1 evs r' Ho _ IH]; intros rest w; simpl.
  - by rewrite extend_nil.
  - unfold bind, emit, record. rewrite Ho, IH, extend_extend. done.
Qed.

Lemma range_opts_all os req evs req' w :
  opts_ok os req evs req' ->
  range_opts os req w = (inr req', extend evs w).
Proof.
  intros H. pose proof (range_opts_ok _ _ _ _ H [] w) as E.
  by rewrite app_nil_r in E.
Qed.

Lemma range_opts_first_failure pre o post req evs r r1 err w :
  opts_ok pre req evs r ->
  o r = (r1, Some err) ->
  range_opts (pre ++ o :: post) req w =
    (inl (OptionErrorPtr (mkOptionError (Some err))),
     extend (evs ++ [EvOption r]) w).
Proof.
  intros H Ho. rewrite (range_opts_ok _ _ _ _ H). simpl.
  unfold bind, emit, record. by rewrite Ho, extend_extend.
Qed.

(** The loop either runs every hook, or stops at the first that fails. *)
Lemma range_opts_total os req :
  (exists evs req', opts_ok os req evs req') \/
  (exists pre o post evs r r1 err,
      os = pre ++ o :: post /\ opts_ok pre req evs r /\ o r = (r1, Some err)).
Proof.
  revert req. induction os as [|o os IH]; intros req.
  - left. exists [], req. constructor.
  - destruct (o req) as [r1 [err|]] eqn:Ho.
    + right. exists [], o, os, [], req, r1, err.
      split; [done | split; [constructor | done]].
    + destruct (IH r1) as [(evs & req' & H) | (pre & o' & post & evs & r & r2 & err & -> & H & Ho')].
      * left. exists (EvOption req :: evs), req'. econstructor; eauto.
      * right. exists (o :: pre), o', post, (EvOption req :: evs), r, r2, err.
        split; [done | split; [econstructor; eauto | done]].
Qed.

(** ** The call, phase by phase *)

Lemma build_request_world c ctx op variables w :
  (build_request env c ctx op variables w).2 = w.
Proof.
  unfold build_request, bind, try, fail, ret.
  destruct (json_Encode env _); simpl; [done|].
  destruct (http_NewRequestWithContext env _ _ _ _); done.
Qed.

Lemma build_request_eq c ctx op variables w r :
  (build_request env c ctx op variables w).1 = r ->
  build_request env c ctx op variables w = (r, w).
Proof.
  intros <-. rewrite <- (build_request_world c ctx op variables w) at 3.
  by destruct (build_request env c ctx op variables w).
Qed.

Lemma do_encode_fail c ctx op variables opts w e :
  json_Encode env {| Query := compile env op (target w) variables;
                     Variables := variables |} = inl e ->
  do env c ctx op variables opts w = (Some e, w).
Proof.
  intros H. unfold do, do_M, build_request, bind, try, fail.
  by rewrite H.
Qed.

Lemma do_construct_fail c ctx op variables opts w buf e :
  json_Encode env {| Query := compile env op (target w) variables;
                     Variables := variables |} = inr buf ->
  http_NewRequestWithContext env ctx "POST" (url c) buf = inl e ->
  do env c ctx op variables opts w = (Some e, w).
Proof.
  intros H1 H2. unfold do, do_M, build_request, bind, try, fail, ret.
  by rewrite H1, H2.
Qed.

Lemma do_option_fail c ctx op variables opts w req0 pre o post evs r r1 err :
  (build_request env c ctx op variables w).1 = inr req0 ->
  requestOptions c ++ opts = pre ++ o :: post ->
  opts_ok pre req0 evs r ->
  o r = (r1, Some err) ->
  do env c ctx op variables opts w =
    (Some (OptionErrorPtr (mkOptionError (Some err))),
     extend (evs ++ [EvOption r]) w).
Proof.
  intros Hb Hsplit Hpre Ho. unfold do, do_M, bind.
  rewrite (build_request_eq _ _ _ _ _ _ Hb). simpl app.
  by rewrite Hsplit, (range_opts_first_failure _ _ _ _ _ _ _ _ _ Hpre Ho).
Qed.

Lemma do_reaches_transport c ctx op variables opts w evs req :
  sends env c ctx op variables opts w evs req ->
  do env c ctx op variables opts w =
    returned
      (bind (try (httpClient c req))
            (fun resp => deferred (emit EvClose) (handle_response env resp))
            (extend (evs ++ [EvDo req]) w)).
Proof.
  intros (req0 & evs1 & mid & evs2 & Hb & H1 & H2 & ->).
  unfold do, do_M. unfold bind at 1.
  rewrite (build_request_eq _ _ _ _ _ _ Hb). simpl app.
  unfold bind at 1.
  rewrite (range_opts_all _ _ _ _ _ (opts_ok_app _ _ _ _ _ _ _ H1 H2)).
  unfold bind at 1. unfold emit, record. by rewrite extend_extend.
Qed.

Lemma do_transport_fail c ctx op variables opts w evs req e :
  sends env c ctx op variables opts w evs req ->
  httpClient c req = inl e ->
  do env c ctx op variables opts w =
    (Some e, extend (evs ++ [EvDo req]) w).
Proof.
  intros Hs He. rewrite (do_reaches_transport _ _ _ _ _ _ _ _ Hs).
  unfold bind, try, fail. by rewrite He.
Qed.

Lemma do_answered c ctx op variables opts w evs req resp :
  sends env c ctx op variables opts w evs req ->
  httpClient c req = inr resp ->
  do env c ctx op variables opts w =
    returned (deferred (emit EvClose) (handle_response env resp)
                       (extend (evs ++ [EvDo req]) w)).
Proof.
  intros Hs He. rewrite (do_reaches_transport _ _ _ _ _ _ _ _ Hs).
  unfold bind, try, ret. by rewrite He.
Qed.

(** ** What happens to a response *)

Lemma handle_status resp w :
  StatusCode resp <> http_StatusOK ->
  handle_response env resp w =
    (inl (FmtError ("non-200 OK status code: " +:+ Status resp +:+ " body: "
                    +:+ strconv_Quote env (content (RespBody resp)))),
     extend [EvReadAll] w).
Proof.
  intros H. unfold handle_response.
  destruct (Z.eqb_spec (StatusCode resp) http_StatusOK); [done|]. done.
Qed.

Lemma handle_parse_fail resp w e :
  StatusCode resp = http_StatusOK ->
  json_Decode env (RespBody resp) = inl e ->
  handle_response env resp w = (inl e, extend [EvDecode] w).
Proof.
  intros H1 H2. unfold handle_response. rewrite H1. simpl.
  unfold bind, emit, try, fail. by rewrite H2.
Qed.

(** With status 200 and a body that decodes to [out]: the materializer
    runs on the data, if any, and then the errors are looked at. *)
Lemma handle_envelope resp w out :
  StatusCode resp = http_StatusOK ->
  json_Decode env (RespBody resp) = inr out ->
  handle_response env resp w =
    match Data out with
    | None =>
        (if (0 <? length (Errors out))%nat
         then inl (ProtocolErrors (Errors out)) else inr tt,
         extend [EvDecode] w)
    | Some data =>
        let r := jsonutil_UnmarshalGraphQL env data (target w) in
        let w' := {| target := r.1;
                     trace := trace w ++ [EvDecode; EvUnmarshal data] |} in
        match r.2 with
        | Some e => (inl e, w')
        | None =>
            (if (0 <? length (Errors out))%nat
             then inl (ProtocolErrors (Errors out)) else inr tt, w')
        end
    end.
Proof.
  intros H1 H2. unfold handle_response. rewrite H1. simpl.
  unfold bind, emit, try, ret. rewrite H2. simpl.
  destruct (Data out) as [data|]; simpl.
  - unfold unmarshal, record, extend. simpl.
    destruct (jsonutil_UnmarshalGraphQL env data (target w)) as [t' [e|]];
      simpl; rewrite <- app_assoc; simpl; [done|].
    unfold aggregate, fail, ret. by destruct (0 <? length (Errors out))%nat.
  - unfold aggregate, fail, ret. by destruct (0 <? length (Errors out))%nat.
Qed.

(** Counting the transport's calls in a trace whose option events [Hc]
    accounts for. *)
Ltac count_sends Hc :=
  simpl; rewrite ?count_Do_app, ?Hc; simpl; lia.

Lemma sends_events c ctx op variables opts w evs req :
  sends env c ctx op variables opts w evs req ->
  count_Do evs = 0%nat /\ Forall (fun ev => is_parse ev = false) evs.
Proof.
  intros (req0 & evs1 & mid & evs2 & _ & H1 & H2 & ->).
  apply (opts_ok_events _ _ _ _ (opts_ok_app _ _ _ _ _ _ _ H1 H2)).
Qed.

Lemma no_parse_no_unmarshal evs :
  Forall (fun ev => is_parse ev = false) evs ->
  Forall (fun ev => is_unmarshal ev = false) evs.
Proof. intros H. eapply Forall_impl; [exact H|]. by intros []. Qed.

(** The events after those of [Hp] are not the materializer's. *)
Ltac quiet Hp :=
  apply Forall_app; split;
  [by apply no_parse_no_unmarshal | by repeat constructor].

(** The whole run of a call answered with a status other than 200. *)
Lemma do_status c ctx op variables opts w resp :
  answered env c ctx op variables opts w resp ->
  StatusCode resp <> http_StatusOK ->
  exists evs req,
    count_Do evs = 0%nat /\
    Forall (fun ev => is_parse ev = false) evs /\
    do env c ctx op variables opts w =
      (Some (FmtError ("non-200 OK status code: " +:+ Status resp
                       +:+ " body: "
                       +:+ strconv_Quote env (io_ReadAll (RespBody resp)).1)),
       extend (evs ++ [EvDo req; EvReadAll; EvClose]) w).
Proof.
  intros (evs & req & Hs & Ht) Hst. exists evs, req.
  destruct (sends_events _ _ _ _ _ _ _ _ Hs) as [Hc Hp].
  split; [done | split; [done|]].
  rewrite (do_answered _ _ _ _ _ _ _ _ _ Hs Ht). unfold deferred.
  rewrite (handle_status _ _ Hst). unfold emit, record, extend; simpl.
  by rewrite <- !app_assoc.
Qed.

(** The whole run of a call whose answer does not decode. *)
Lemma do_parse_fail c ctx op variables opts w resp e :
  answered env c ctx op variables opts w resp ->
  StatusCode resp = http_StatusOK ->
  json_Decode env (RespBody resp) = inl e ->
  exists evs req,
    count_Do evs = 0%nat /\
    Forall (fun ev => is_parse ev = false) evs /\
    do env c ctx op variables opts w =
      (Some e, extend (evs ++ [EvDo req; EvDecode; EvClose]) w).
Proof.
  intros (evs & req & Hs & Ht) Hst Hdec. exists evs, req.
  destruct (sends_events _ _ _ _ _ _ _ _ Hs) as [Hc Hp].
  split; [done | split; [done|]].
  rewrite (do_answered _ _ _ _ _ _ _ _ _ Hs Ht). unfold deferred.
  rewrite (handle_parse_fail _ _ _ Hst Hdec).
  unfold emit, record, extend; simpl. by rewrite <- !app_assoc.
Qed.

Lemma some_errors (es : GraphQLErrors) :
  es <> [] -> (0 <? length es)%nat = true.
Proof. by destruct es. Qed.

(** The whole run of a call that gets an envelope. *)
Lemma do_enveloped c ctx op variables opts w out :
  enveloped env c ctx op variables opts w out ->
  exists evs req,
    count_Do evs = 0%nat /\
    Forall (fun ev => is_parse ev = false) evs /\
    do env c ctx op variables opts w =
      match Data out with
      | None =>
          (if (0 <? length (Errors out))%nat
           then Some (ProtocolErrors (Errors out)) else None,
           extend (evs ++ [EvDo req; EvDecode; EvClose]) w)
      | Some data =>
          let r := jsonutil_UnmarshalGraphQL env data (target w) in
          let w' := {| target := r.1;
                       trace := trace w ++ evs ++
                                [EvDo req; EvDecode; EvUnmarshal data; EvClose] |} in
          match r.2 with
          | Some e => (Some e, w')
          | None =>
              (if (0 <? length (Errors out))%nat
               then Some (ProtocolErrors (Errors out)) else None, w')
          end
      end.
Proof.
  intros (resp & (evs & req & Hs & Ht) & Hst & Hdec).
  exists evs, req.
  destruct (sends_events _ _ _ _ _ _ _ _ Hs) as [Hc Hp].
  split; [done | split; [done|]].
  rewrite (do_answered _ _ _ _ _ _ _ _ _ Hs Ht). unfold deferred.
  rewrite (handle_envelope _ _ _ Hst Hdec).
  unfold emit, record, extend.
  destruct (Data out) as [data|]; simpl.
  - destruct (jsonutil_UnmarshalGraphQL env data (target w)) as [t' [e|]];
      simpl; rewrite <- !app_assoc; simpl.
    + done.
    + by destruct (0 <? length (Errors out))%nat.
  - rewrite <- !app_assoc; simpl.
    by destruct (0 <? length (Errors out))%nat.
Qed.

(** A response is dealt with without calling the transport again. *)
Lemma handle_response_trace resp w :
  exists later,
    trace (handle_response env resp w).2 = trace w ++ later /\
    count_Do later = 0%nat.
Proof.
  destruct (decide (StatusCode resp = http_StatusOK)) as [Hst|Hst].
  - destruct (json_Decode env (RespBody resp)) as [e|out] eqn:Hdec.
    + rewrite (handle_parse_fail _ _ _ Hst Hdec). by exists [EvDecode].
    + rewrite (handle_envelope _ _ _ Hst Hdec).
      destruct (Data out) as [data|]; simpl.
      * exists [EvDecode; EvUnmarshal data].
        by destruct (jsonutil_UnmarshalGraphQL env data (target w)) as [t' [e|]].
      * by exists [EvDecode].
  - rewrite (handle_status _ _ Hst). by exists [EvReadAll].
Qed.

(** Every call either fails early or gets an envelope. *)
Lemma do_total c ctx op variables opts w :
  early_failure env c ctx op variables opts w \/
  exists out, enveloped env c ctx op variables opts w out.
Proof.
  destruct (json_Encode env {| Query := compile env op (target w) variables;
                               Variables := variables |})
    as [e|buf] eqn:Henc.
  { left. eapply fails_encoding; eauto. }
  destruct (http_NewRequestWithContext env ctx "POST" (url c) buf)
    as [e|req1] eqn:Hnew.
  { left. eapply fails_construction; eauto. }
  assert ((build_request env c ctx op variables w).1 =
          inr (Header_Set "Content-Type" "application/json" req1)) as Hb.
  { unfold build_request, bind, try, ret. by rewrite Henc, Hnew. }
  destruct (range_opts_total (requestOptions c ++ opts)
              (Header_Set "Content-Type" "application/json" req1))
    as [(evs & req & Hok)
       | (pre & o & post & evs & r & r1 & err & Hsplit & Hpre & Ho)].
  2: { left. eapply fails_option; eauto. }
  destruct (opts_ok_app_inv _ _ _ _ _ Hok)
    as (evs1 & mid & evs2 & H1 & H2 & ->).
  assert (sends env c ctx op variables opts w (evs1 ++ evs2) req) as Hs.
  { eexists _, evs1, mid, evs2. eauto. }
  destruct (httpClient c req) as [e|resp] eqn:Ht.
  { left. eapply fails_transport; eauto. }
  assert (answered env c ctx op variables opts w resp) as Hans.
  { eexists _, req. eauto. }
  destruct (decide (StatusCode resp = http_StatusOK)) as [Hst|Hst].
  2: { left. eapply fails_status; eauto. }
  destruct (json_Decode env (RespBody resp)) as [e|out] eqn:Hdec.
  { left. eapply fails_parse; eauto. }
  right. exists out, resp. eauto.
Qed.

(** The whole run of a call that fails early: at most one call of the
    transport, no materialization, and an error that a collaborator
    handed back, that wraps a failing option's error, or that reports
    the status. *)
Lemma do_early_failure c ctx op variables opts w :
  early_failure env c ctx op variables opts w ->
  exists err evs,
    do env c ctx op variables opts w = (Some err, extend evs w) /\
    (count_Do evs <= 1)%nat /\
    Forall (fun ev => is_unmarshal ev = false) evs /\
    (handed_back env c ctx op variables opts w err \/
     (exists e, err = OptionErrorPtr (mkOptionError (Some e))) \/
     (exists msg, err = FmtError msg)).
Proof.
  intros [e Henc | buf e Henc Hnew
         | req0 pre o post evs r r1 err Hb Hsplit Hpre Ho
         | evs req e Hs Ht | resp Hans Hst | resp e Hans Hst Hdec].
  - exists e, []. rewrite extend_nil.
    rewrite (do_encode_fail _ _ _ _ _ _ _ Henc).
    split; [done | split; [simpl; lia | split; [constructor|]]].
    left. by apply back_encoding.
  - exists e, []. rewrite extend_nil.
    rewrite (do_construct_fail _ _ _ _ _ _ _ _ Henc Hnew).
    split; [done | split; [simpl; lia | split; [constructor|]]].
    left. by eapply back_construction.
  - eexists _, _.
    rewrite (do_option_fail _ _ _ _ _ _ _ _ _ _ _ _ _ _ Hb Hsplit Hpre Ho).
    destruct (opts_ok_events _ _ _ _ Hpre) as [Hc Hp].
    split; [done | split; [count_sends Hc | split; [quiet Hp|]]].
    right. left. by eexists.
  - eexists _, _. rewrite (do_transport_fail _ _ _ _ _ _ _ _ _ Hs Ht).
    destruct (sends_events _ _ _ _ _ _ _ _ Hs) as [Hc Hp].
    split; [done | split; [count_sends Hc | split; [quiet Hp|]]].
    left. by eapply back_transport.
  - destruct (do_status _ _ _ _ _ _ _ Hans Hst) as (evs & req & Hc & Hp & ->).
    eexists _, _.
    split; [done | split; [count_sends Hc | split; [quiet Hp|]]].
    right. right. by eexists.
  - destruct (do_parse_fail _ _ _ _ _ _ _ _ Hans Hst Hdec)
      as (evs & req & Hc & Hp & ->).
    eexists _, _.
    split; [done | split; [count_sends Hc | split; [quiet Hp|]]].
    left. by eapply back_decoding.
Qed.

(** Every way a run can go, with its returned error rewritten in [Hret]. *)
Ltac run_cases c ctx op variables opts w Hret :=
  let Hrun := fresh "Hrun" in
  destruct (do_total c ctx op variables opts w)
    as [[e Henc | buf e Henc Hnew
        | req0 pre o post evs r r1 err Hb Hsplit Hpre Ho
        | evs req e Hs Ht | resp Hans Hst | resp e Hans Hst Hdec]
       | [out Henv]];
  [ rewrite (do_encode_fail _ _ _ _ _ _ _ Henc) in Hret
  | rewrite (do_construct_fail _ _ _ _ _ _ _ _ Henc Hnew) in Hret
  | rewrite (do_option_fail _ _ _ _ _ _ _ _ _ _ _ _ _ _ Hb Hsplit Hpre Ho)
      in Hret
  | rewrite (do_transport_fail _ _ _ _ _ _ _ _ _ Hs Ht) in Hret
  | destruct (do_status _ _ _ _ _ _ _ Hans Hst)
      as (evs & req & _ & _ & Hrun); rewrite Hrun in Hret; clear Hrun
  | destruct (do_parse_fail _ _ _ _ _ _ _ _ Hans Hst Hdec)
      as (evs & req & _ & _ & Hrun); rewrite Hrun in Hret; clear Hrun
  | destruct (do_enveloped _ _ _ _ _ _ _ Henv)
      as (evs & req & _ & _ & Hrun); rewrite Hrun in Hret; clear Hrun ];
  simpl in Hret.

(** The returned error of a run that got an envelope, case by case. *)
Ltac envelope_cases out data Hret :=
  destruct (Data out) as [data|] eqn:Hdata; simpl in Hret;
  [ destruct (jsonutil_UnmarshalGraphQL env data _) as [t' [e|]] eqn:Hm;
    simpl in Hret |];
  try destruct (0 <? length (Errors out))%nat eqn:Hpos;
  simpl in Hret.

(** Where the error a call returns comes from: a collaborator handed it
    back; or an option failed and it wraps that option's error; or the
    status was not 200 and it reports the answer; or it is the non-empty
    errors array of an envelope whose data, if any, was materialized. *)
Lemma do_error_sources c ctx op variables opts w
    (got : error_value ExtErr) :
  (do env c ctx op variables opts w).1 = Some got ->
  handed_back env c ctx op variables opts w got \/
  (exists req0 pre o post evs r r1 e,
      (build_request env c ctx op variables w).1 = inr req0 /\
      requestOptions c ++ opts = pre ++ o :: post /\
      opts_ok pre req0 evs r /\
      o r = (r1, Some e) /\
      got = OptionErrorPtr (mkOptionError (Some e))) \/
  (exists resp,
      answered env c ctx op variables opts w resp /\
      StatusCode resp <> http_StatusOK /\
      got = FmtError ("non-200 OK status code: " +:+ Status resp
                      +:+ " body: "
                      +:+ strconv_Quote env (content (RespBody resp)))) \/
  (exists out,
      enveloped env c ctx op variables opts w out /\
      materializes env out (target w) /\
      Errors out <> [] /\
      got = ProtocolErrors (Errors out)).
Proof.
  intros Hret. run_cases c ctx op variables opts w Hret.
  - injection Hret as <-. left. by apply back_encoding.
  - injection Hret as <-. left. by eapply back_construction.
  - injection Hret as <-. right. left.
    by exists req0, pre, o, post, evs, r, r1, err.
  - injection Hret as <-. left. by eapply back_transport.
  - injection Hret as <-. right. right. left. by exists resp.
  - injection Hret as <-. left. by eapply back_decoding.
  - unfold materializes. envelope_cases out data Hret; try discriminate.
    + injection Hret as <-. left.
      eapply back_materializing; [done | done | by rewrite Hm].
    + injection Hret as <-. left.
      eapply back_materializing; [done | done | by rewrite Hm].
    + injection Hret as <-. right. right. right. exists out.
      rewrite Hdata, Hm. simpl. split; [done|]. split; [done|].
      split; [|done]. intros Hnil. by rewrite Hnil in Hpos.
    + injection Hret as <-. right. right. right. exists out.
      rewrite Hdata. split; [done|]. split; [done|].
      split; [|done]. intros Hnil. by rewrite Hnil in Hpos.
Qed.

(** ** Partial results *)

(** C1: when the envelope carries non-null data together with a
    non-empty errors array, the call runs the materializer on that data
    against the target (the target ends up as the materializer leaves it)
    and returns a non-nil error: the materializer's own error if it
    fails, the server's errors otherwise. *)
Theorem data_with_errors_is_failure c ctx op variables opts w out data :
  enveloped env c ctx op variables opts w out ->
  Data out = Some data ->
  Errors out <> [] ->
  let run := do env c ctx op variables opts w in
  let m := jsonutil_UnmarshalGraphQL env data (target w) in
  target run.2 = m.1 /\
  EvUnmarshal data ∈ trace run.2 /\
  run.1 = Some (match m.2 with
                | Some e => e
                | None => ProtocolErrors (Errors out)
                end) /\
  run.1 <> None.
Proof.
  intros Henv Hdata Herrs run m. subst run m.
  destruct (do_enveloped _ _ _ _ _ _ _ Henv) as (evs & req & _ & _ & ->).
  rewrite Hdata, (some_errors _ Herrs). simpl.
  destruct (jsonutil_UnmarshalGraphQL env data (target w)) as [t' [e|]];
    simpl; (split; [done|]); (split; [|done]);
    rewrite !elem_of_app, !elem_of_cons; naive_solver.
Qed.

(** C2: when the envelope's data is null or absent and its errors array
    is not empty, the call returns the server's errors as its failure,
    the materializer is not run and the target is what it was before the
    call. *)
Theorem null_data_with_errors c ctx op variables opts w out :
  enveloped env c ctx op variables opts w out ->
  Data out = None ->
  Errors out <> [] ->
  let run := do env c ctx op variables opts w in
  run.1 = Some (ProtocolErrors (Errors out)) /\
  target run.2 = target w /\
  forall data, EvUnmarshal data ∈ trace run.2 -> EvUnmarshal data ∈ trace w.
Proof.
  intros Henv Hdata Herrs run. subst run.
  destruct (do_enveloped _ _ _ _ _ _ _ Henv) as (evs & req & _ & Hp & ->).
  rewrite Hdata, (some_errors _ Herrs). simpl.
  split; [done | split; [done|]].
  intros data. rewrite !elem_of_app. intros [H | [H | H]]; [done | | ].
  - rewrite Forall_forall in Hp. by specialize (Hp _ H).
  - rewrite !elem_of_cons, elem_of_nil in H.
    destruct H as [H | [H | [H | []]]]; discriminate.
Qed.

(** C3: with an envelope whose data, if any, materializes, the call
    returns nil when the errors array is empty; when it is not, the call
    returns one error value holding the whole array, and the [Error]
    method of that value returns the message of the first element. *)
Theorem errors_aggregation c ctx op variables opts w out :
  enveloped env c ctx op variables opts w out ->
  materializes env out (target w) ->
  let run := do env c ctx op variables opts w in
  (Errors out = [] -> run.1 = None) /\
  (forall (g : GraphQLError) (gs : GraphQLErrors),
      Errors out = g :: gs ->
      run.1 = Some (ProtocolErrors (g :: gs)) /\
      GraphQLErrors_Error (g :: gs) = Returned (Message g)).
Proof.
  intros Henv Hmat run. subst run.
  destruct (do_enveloped _ _ _ _ _ _ _ Henv) as (evs & req & _ & _ & ->).
  unfold materializes in Hmat.
  destruct (Data out) as [data|]; simpl; [rewrite Hmat|];
    (split; [intros -> | intros g gs ->]); done.
Qed.

(** ** Transport status *)

(** C4: when the transport answers with a status code other than 200,
    the call returns the error built by [fmt.Errorf], whose message holds
    the response's status line and the quoted bytes read from its body;
    neither the decoder nor the materializer runs, and the target is
    untouched. *)
Theorem non_success_status c ctx op variables opts w resp :
  answered env c ctx op variables opts w resp ->
  StatusCode resp <> http_StatusOK ->
  let run := do env c ctx op variables opts w in
  run.1 = Some (FmtError ("non-200 OK status code: " +:+ Status resp
                          +:+ " body: "
                          +:+ strconv_Quote env (content (RespBody resp)))) /\
  (exists evs, trace run.2 = trace w ++ evs /\
               Forall (fun ev => is_parse ev = false) evs) /\
  target run.2 = target w.
Proof.
  intros Hans Hst run. subst run.
  destruct (do_status _ _ _ _ _ _ _ Hans Hst) as (evs & req & _ & Hp & ->).
  simpl. split; [done | split; [|done]].
  eexists; split; [done|].
  apply Forall_app; split; [done|]. by repeat constructor.
Qed.

(** ** Materialization failures *)

(** C9: when the envelope carries data that the materializer rejects
    together with a non-empty errors array, the call returns the
    materializer's error alone; the server's errors are not what it
    returns (unless the materializer itself handed back that very
    value as its error). *)
Theorem materializer_error_wins c ctx op variables opts w out data e :
  enveloped env c ctx op variables opts w out ->
  Data out = Some data ->
  (jsonutil_UnmarshalGraphQL env data (target w)).2 = Some e ->
  Errors out <> [] ->
  let run := do env c ctx op variables opts w in
  run.1 = Some e /\
  (e <> ProtocolErrors (Errors out) ->
   run.1 <> Some (ProtocolErrors (Errors out))).
Proof.
  intros Henv Hdata Hfail _ run. subst run.
  destruct (do_enveloped _ _ _ _ _ _ _ Henv) as (evs & req & _ & _ & ->).
  rewrite Hdata. simpl. rewrite Hfail. simpl.
  split; [done|]. intros Hne [= ->]. by apply Hne.
Qed.

(** ** Request options *)

(** C5: once the request is built, the options run on it one after the
    other, the client's before the call's.  If all of them return nil,
    the transport is called with the request they leave.  If one of them
    returns an error, it is the last option to run, the transport is not
    called, and the call returns an [OptionError] whose [Unwrap] is that
    error. *)
Theorem options_in_order c ctx op variables opts w req0 :
  (build_request env c ctx op variables w).1 = inr req0 ->
  let run := do env c ctx op variables opts w in
  (forall evs1 mid evs2 req,
      opts_ok (requestOptions c) req0 evs1 mid ->
      opts_ok opts mid evs2 req ->
      exists later,
        trace run.2 = trace w ++ evs1 ++ evs2 ++ EvDo req :: later /\
        count_Do later = 0%nat) /\
  (forall pre o post evs r r1 err,
      requestOptions c ++ opts = pre ++ o :: post ->
      opts_ok pre req0 evs r ->
      o r = (r1, Some err) ->
      (exists oe, run.1 = Some (OptionErrorPtr oe) /\
                  OptionError_Unwrap oe = Some err) /\
      run.2 = extend (evs ++ [EvOption r]) w /\
      count_Do (trace run.2) = count_Do (trace w)).
Proof.
  intros Hb run. subst run. split.
  - intros evs1 mid evs2 req H1 H2.
    assert (sends env c ctx op variables opts w (evs1 ++ evs2) req) as Hs.
    { eexists req0, evs1, mid, evs2. eauto. }
    rewrite (do_reaches_transport _ _ _ _ _ _ _ _ Hs).
    unfold bind, try, fail, ret.
    destruct (httpClient c req) as [e|resp]; simpl.
    + exists []. by rewrite <- !app_assoc.
    + unfold deferred.
      destruct (handle_response_trace resp (extend ((evs1 ++ evs2) ++ [EvDo req]) w))
        as (later & Ht & Hc).
      destruct (handle_response env resp _) as [[err|[]] w']; simpl in *;
        rewrite Ht; simpl; exists (later ++ [EvClose]);
        rewrite <- !app_assoc; simpl;
        (split; [done | by rewrite count_Do_app, Hc]).
  - intros pre o post evs r r1 err Hsplit Hpre Ho.
    rewrite (do_option_fail _ _ _ _ _ _ _ _ _ _ _ _ _ _ Hb Hsplit Hpre Ho).
    simpl. split; [by eexists | split; [done|]].
    destruct (opts_ok_events _ _ _ _ Hpre) as [Hc _].
    rewrite !count_Do_app, Hc. simpl. lia.
Qed.

(** ** Retries *)

(** C7: no call invokes the transport more than once; a transport
    failure, a status other than 200, an answer that does not decode and
    data that does not materialize each end the call with that failure
    after exactly one invocation. *)
Theorem no_retry c ctx op variables opts w :
  let run := do env c ctx op variables opts w in
  (count_Do (trace run.2) <= count_Do (trace w) + 1)%nat /\
  (forall evs req e,
      sends env c ctx op variables opts w evs req ->
      httpClient c req = inl e ->
      run.1 = Some e /\
      count_Do (trace run.2) = (count_Do (trace w) + 1)%nat) /\
  (forall resp,
      answered env c ctx op variables opts w resp ->
      StatusCode resp <> http_StatusOK ->
      run.1 <> None /\
      count_Do (trace run.2) = (count_Do (trace w) + 1)%nat) /\
  (forall resp e,
      answered env c ctx op variables opts w resp ->
      StatusCode resp = http_StatusOK ->
      json_Decode env (RespBody resp) = inl e ->
      run.1 = Some e /\
      count_Do (trace run.2) = (count_Do (trace w) + 1)%nat) /\
  (forall out data e,
      enveloped env c ctx op variables opts w out ->
      Data out = Some data ->
      (jsonutil_UnmarshalGraphQL env data (target w)).2 = Some e ->
      run.1 = Some e /\
      count_Do (trace run.2) = (count_Do (trace w) + 1)%nat).
Proof.
  intros run. subst run.
  split; [|split; [|split; [|split]]].
  - destruct (do_total c ctx op variables opts w) as [Hearly | [out Henv]].
    + destruct (do_early_failure _ _ _ _ _ _ Hearly)
        as (err & evs & -> & Hc & _).
      simpl. rewrite count_Do_app. lia.
    + destruct (do_enveloped _ _ _ _ _ _ _ Henv) as (evs & req & Hc & _ & ->).
      destruct (Data out) as [data|]; simpl.
      * destruct (jsonutil_UnmarshalGraphQL env data (target w)) as [t' [e|]];
          simpl; [|destruct (0 <? length (Errors out))%nat];
          count_sends Hc.
      * destruct (0 <? length (Errors out))%nat; count_sends Hc.
  - intros evs req e Hs Ht.
    rewrite (do_transport_fail _ _ _ _ _ _ _ _ _ Hs Ht).
    destruct (sends_events _ _ _ _ _ _ _ _ Hs) as [Hc _].
    split; [done | count_sends Hc].
  - intros resp Hans Hst.
    destruct (do_status _ _ _ _ _ _ _ Hans Hst) as (evs & req & Hc & _ & ->).
    split; [done | count_sends Hc].
  - intros resp e Hans Hst Hdec.
    destruct (do_parse_fail _ _ _ _ _ _ _ _ Hans Hst Hdec)
      as (evs & req & Hc & _ & ->).
    split; [done | count_sends Hc].
  - intros out data e Henv Hdata Hfail.
    destruct (do_enveloped _ _ _ _ _ _ _ Henv) as (evs & req & Hc & _ & ->).
    rewrite Hdata. simpl. rewrite Hfail.
    split; [done | count_sends Hc].
Qed.

(** ** The errors a call returns *)

(** C8: a [GraphQLErrors] value returned by a call has at least one
    element, so that its [Error] method returns (the first message) and
    does not panic, unless the value is an error that one of the call's
    collaborators handed back and the call returned as it is. *)
Theorem returned_errors_nonempty_or_handed_back c ctx op variables opts w
    (es : GraphQLErrors) :
  (do env c ctx op variables opts w).1 = Some (ProtocolErrors es) ->
  handed_back env c ctx op variables opts w (ProtocolErrors es) \/
  ((0 < length es)%nat /\
   exists g, es !! 0%nat = Some g /\
             GraphQLErrors_Error es = Returned (Message g)).
Proof.
  intros Hret.
  destruct (do_error_sources _ _ _ _ _ _ _ Hret)
    as [Hback
       | [(req0 & pre & o & post & evs & r & r1 & e & _ & _ & _ & _ & Hopt)
         | [(resp & _ & _ & Hfmt)
           | (out & _ & _ & Hne & Hes)]]].
  - by left.
  - discriminate.
  - discriminate.
  - right. injection Hes as ->.
    destruct (Errors out) as [|g gs]; [done|].
    split; [simpl; lia | by exists g].
Qed.

(** ** The target before materialization *)

(** C10: when the call fails before materialization begins (the envelope
    cannot be encoded, the request cannot be built, an option fails, the
    transport fails, the status is not 200, or the answer does not
    decode), it returns an error, the materializer has not run and the
    target is what it was before the call. *)
Theorem early_failure_keeps_target c ctx op variables opts w :
  early_failure env c ctx op variables opts w ->
  let run := do env c ctx op variables opts w in
  run.1 <> None /\
  target run.2 = target w /\
  exists evs, trace run.2 = trace w ++ evs /\
              Forall (fun ev => is_unmarshal ev = false) evs.
Proof.
  intros Hearly run. subst run.
  destruct (do_early_failure _ _ _ _ _ _ Hearly) as (err & evs & -> & _ & Hu & _).
  simpl. split; [done | split; [done|]]. by exists evs.
Qed.

(** ** The outbound payload *)

Lemma assoc_Some_elem k (j : json) js :
  assoc k js = Some j -> (k, j) ∈ js.
Proof.
  induction js as [|[k' j'] js IH]; simpl; [done|].
  destruct (decide (k = k')) as [->|Hne].
  - intros [= ->]. apply elem_of_cons. by left.
  - intros H. apply elem_of_cons. right. by apply IH.
Qed.

Lemma elem_assoc k (j : json) js :
  NoDup js.*1 -> (k, j) ∈ js -> assoc k js = Some j.
Proof.
  induction js as [|[k' j'] js IH]; simpl; intros Hnd Hin.
  - by apply elem_of_nil in Hin.
  - apply NoDup_cons in Hnd as [Hfresh Hnd].
    apply elem_of_cons in Hin as [[= -> ->] | Hin].
    + by rewrite decide_True.
    + rewrite decide_False; [by apply IH|].
      intros ->. apply Hfresh. apply list_elem_of_fmap. by exists (k', j).
Qed.

Lemma marshal_members_keys kvs js :
  marshal_members env kvs = inr js -> js.*1 = kvs.*1.
Proof.
  revert js. induction kvs as [|[k a] kvs IH]; simpl; intros js.
  - by intros [= <-].
  - destruct (json_Marshal_any env a) as [|j]; [done|].
    destruct (marshal_members env kvs) as [|js']; [done|].
    intros [= <-]. rewrite !fmap_cons. simpl. f_equal. by apply IH.
Qed.

Lemma marshal_members_value kvs js k a :
  marshal_members env kvs = inr js ->
  (k, a) ∈ kvs ->
  exists j, json_Marshal_any env a = inr j /\ (k, j) ∈ js.
Proof.
  revert js. induction kvs as [|[k' a'] kvs IH]; simpl; intros js Hm Hin.
  - by apply elem_of_nil in Hin.
  - destruct (json_Marshal_any env a') as [|j'] eqn:Ha; [done|].
    destruct (marshal_members env kvs) as [|js']; [done|].
    injection Hm as <-.
    apply elem_of_cons in Hin as [[= -> ->] | Hin].
    + exists j'. split; [done|]. apply elem_of_cons. by left.
    + destruct (IH js' eq_refl Hin) as (j & Hj & Hjs).
      exists j. split; [done|]. apply elem_of_cons. by right.
Qed.

Lemma sorted_entries_elem (m : gmap string Any) k a :
  (k, a) ∈ sorted_entries m <-> m !! k = Some a.
Proof.
  unfold sorted_entries. rewrite merge_sort_Permutation.
  apply elem_of_map_to_list.
Qed.

Lemma sorted_entries_NoDup (m : gmap string Any) :
  NoDup (sorted_entries m).*1.
Proof.
  unfold sorted_entries. rewrite merge_sort_Permutation.
  apply NoDup_fst_map_to_list.
Qed.

(** The members written for a map are its bindings, each encoded. *)
Lemma marshal_members_lookup (m : gmap string Any) js :
  marshal_members env (sorted_entries m) = inr js ->
  NoDup js.*1 /\
  forall k, json_Marshal_any env <$> (m !! k) = inr <$> assoc k js.
Proof.
  intros Hm.
  assert (NoDup js.*1) as Hnd.
  { rewrite (marshal_members_keys _ _ Hm). apply sorted_entries_NoDup. }
  split; [done|]. intros k.
  destruct (m !! k) as [a|] eqn:Hk; simpl.
  - apply sorted_entries_elem in Hk.
    destruct (marshal_members_value _ _ _ _ Hm Hk) as (j & Hj & Hjs).
    by rewrite (elem_assoc _ _ _ Hnd Hjs), Hj.
  - destruct (assoc k js) as [j|] eqn:Hj; [|done]. exfalso.
    apply assoc_Some_elem in Hj.
    assert (k ∈ (sorted_entries m).*1) as Hin.
    { rewrite <- (marshal_members_keys _ _ Hm).
      apply list_elem_of_fmap. by exists (k, j). }
    apply list_elem_of_fmap in Hin as ([k' a] & -> & Hin).
    apply sorted_entries_elem in Hin. simpl in Hk. congruence.
Qed.

(** C6: the body of the request a call builds is the rendering of a JSON
    object whose [query] member is the document compiled for the
    operation ([constructQuery]'s for a query, [constructMutation]'s for a
    mutation); when the bindings are nil or empty the object has no other
    member, and otherwise its [variables] member is an object holding
    exactly the bindings, each value encoded. *)
Theorem wire_payload c ctx op variables w req0 :
  (build_request env c ctx op variables w).1 = inr req0 ->
  exists payload doc,
    Body req0 = json_bytes env payload ++ [x0a] /\
    (op = queryOperation -> doc = constructQuery env (target w) variables) /\
    (op = mutationOperation ->
     doc = constructMutation env (target w) variables) /\
    member "query" payload = Some (JString doc) /\
    (variables = None \/ variables = Some ∅ ->
     payload = JObject [("query", JString doc)] /\
     member "variables" payload = None) /\
    (forall m : gmap string Any,
        variables = Some m -> m <> ∅ ->
        exists kvs,
          payload = JObject [("query", JString doc);
                             ("variables", JObject kvs)] /\
          member "variables" payload = Some (JObject kvs) /\
          NoDup kvs.*1 /\
          forall k, json_Marshal_any env <$> (m !! k) = inr <$> assoc k kvs).
Proof.
  unfold build_request, bind, try, fail, ret, json_Encode.
  set (doc := compile env op (target w) variables).
  destruct (marshal_in env {| Query := doc; Variables := variables |})
    as [e|payload] eqn:Hin; simpl; [done|].
  destruct (http_NewRequestWithContext env ctx "POST" (url c) _)
    as [e|req1] eqn:Hnew; simpl; [done|].
  intros [= <-]. exists payload, doc.
  unfold http_NewRequestWithContext in Hnew.
  destruct (http_parse env ctx "POST" (url c)); [done|].
  injection Hnew as <-. simpl.
  split; [done|]. split; [by intros ->|]. split; [by intros ->|].
  unfold marshal_in in Hin. simpl in Hin.
  destruct (isEmptyValue variables) eqn:Hempty.
  - injection Hin as <-. split; [done|]. split; [done|].
    intros m -> Hm. exfalso. apply Hm.
    apply Nat.eqb_eq in Hempty. by apply map_size_empty_inv.
  - unfold marshal_map in Hin.
    destruct variables as [m|]; [|done].
    destruct (marshal_members env (sorted_entries m)) as [e|js] eqn:Hjs;
      [done|].
    injection Hin as <-. split; [done|]. split.
    + intros [? | [= ->]]; [done|].
      unfold isEmptyValue, map_len in Hempty.
      by rewrite map_size_empty in Hempty.
    + intros m' [= <-] _. exists js.
      destruct (marshal_members_lookup _ _ Hjs) as [Hnd Hlook].
      done.
Qed.

(** * Further properties of the call *)

(** ** The order of the calls to collaborators *)

Lemma opts_ok_options os req evs req' :
  opts_ok os req evs req' -> Forall (fun ev => is_option ev = true) evs.
Proof. induction 1; by constructor. Qed.

Lemma sends_options c ctx op variables opts w evs req :
  sends env c ctx op variables opts w evs req ->
  Forall (fun ev => is_option ev = true) evs.
Proof.
  intros (req0 & evs1 & mid & evs2 & _ & H1 & H2 & ->).
  apply Forall_app; split; eapply opts_ok_options; eauto.
Qed.

(** X4: the calls of a run, in order, are option calls followed by one of
    five endings: nothing; the transport alone; the transport, a read of
    the body and its closing; the transport, a decoding and the closing;
    or the transport, a decoding, one materialization and the closing. *)
Theorem call_protocol c ctx op variables opts w :
  exists oevs ending,
    trace (do env c ctx op variables opts w).2 = trace w ++ oevs ++ ending /\
    Forall (fun ev => is_option ev = true) oevs /\
    call_shape ending.
Proof.
  destruct (do_total c ctx op variables opts w)
    as [[e Henc | buf e Henc Hnew
        | req0 pre o post evs r r1 err Hb Hsplit Hpre Ho
        | evs req e Hs Ht | resp Hans Hst | resp e Hans Hst Hdec]
       | [out Henv]].
  - exists [], []. rewrite (do_encode_fail _ _ _ _ _ _ _ Henc). simpl.
    rewrite app_nil_r. repeat constructor.
  - exists [], []. rewrite (do_construct_fail _ _ _ _ _ _ _ _ Henc Hnew).
    simpl. rewrite app_nil_r. repeat constructor.
  - exists (evs ++ [EvOption r]), [].
    rewrite (do_option_fail _ _ _ _ _ _ _ _ _ _ _ _ _ _ Hb Hsplit Hpre Ho).
    simpl. rewrite app_nil_r. split; [done|]. split; [|constructor].
    apply Forall_app; split; [by eapply opts_ok_options | by repeat constructor].
  - exists evs, [EvDo req].
    rewrite (do_transport_fail _ _ _ _ _ _ _ _ _ Hs Ht). simpl.
    split; [done|]. split; [by eapply sends_options | constructor].
  - pose proof Hans as (evs0 & req0 & Hs & Ht).
    rewrite (do_answered _ _ _ _ _ _ _ _ _ Hs Ht). unfold deferred.
    rewrite (handle_status _ _ Hst). unfold emit, record, extend; simpl.
    exists evs0, [EvDo req0; EvReadAll; EvClose]. rewrite <- !app_assoc.
    split; [done|]. split; [by eapply sends_options | constructor].
  - pose proof Hans as (evs0 & req0 & Hs & Ht).
    rewrite (do_answered _ _ _ _ _ _ _ _ _ Hs Ht). unfold deferred.
    rewrite (handle_parse_fail _ _ _ Hst Hdec).
    unfold emit, record, extend; simpl.
    exists evs0, [EvDo req0; EvDecode; EvClose]. rewrite <- !app_assoc.
    split; [done|]. split; [by eapply sends_options | constructor].
  - pose proof Henv as (resp & (evs0 & req0 & Hs & Ht) & Hst & Hdec).
    rewrite (do_answered _ _ _ _ _ _ _ _ _ Hs Ht). unfold deferred.
    rewrite (handle_envelope _ _ _ Hst Hdec).
    unfold emit, record, extend.
    destruct (Data out) as [data|]; simpl.
    + exists evs0, [EvDo req0; EvDecode; EvUnmarshal data; EvClose].
      destruct (jsonutil_UnmarshalGraphQL env data (target w)) as [t' [e|]];
        simpl; try destruct (0 <? length (Errors out))%nat;
        simpl; rewrite <- !app_assoc; simpl;
        (split; [done|]); (split; [by eapply sends_options | constructor]).
    + exists evs0, [EvDo req0; EvDecode; EvClose].
      destruct (0 <? length (Errors out))%nat;
        simpl; rewrite <- !app_assoc; simpl;
        (split; [done|]); (split; [by eapply sends_options | constructor]).
Qed.

(** ** Success *)

(** X3: a call returns nil exactly when the transport answers with status
    200, the body decodes to an envelope whose data, if any, materializes,
    and the envelope's errors array is empty. *)
Theorem success_iff c ctx op variables opts w :
  (do env c ctx op variables opts w).1 = None <->
  exists out,
    enveloped env c ctx op variables opts w out /\
    materializes env out (target w) /\
    Errors out = [].
Proof.
  split.
  - intros Hret.
    destruct (do_total c ctx op variables opts w) as [Hearly | [out Henv]].
    { destruct (do_early_failure _ _ _ _ _ _ Hearly) as (err & evs & Hrun & _).
      by rewrite Hrun in Hret. }
    exists out. split; [done|].
    destruct (do_enveloped _ _ _ _ _ _ _ Henv) as (evs & req & _ & _ & Hrun).
    rewrite Hrun in Hret. clear Hrun. unfold materializes.
    destruct (Data out) as [data|]; simpl in Hret.
    + destruct (jsonutil_UnmarshalGraphQL env data (target w)) as [t' [e|]];
        simpl in *; [done|].
      split; [done|]. by destruct (Errors out).
    + split; [done|]. by destruct (Errors out).
  - intros (out & Henv & Hmat & Herrs).
    destruct (do_enveloped _ _ _ _ _ _ _ Henv) as (evs & req & _ & _ & ->).
    unfold materializes in Hmat. rewrite Herrs.
    destruct (Data out) as [data|]; simpl; [by rewrite Hmat | done].
Qed.

(** ** The target *)

(** X5: the only thing a call does to the target is one run of the
    materializer: when an envelope with data is obtained, the target ends
    as the materializer leaves it, whether it failed or not; in every
    other run the target ends as it began. *)
Theorem target_frame c ctx op variables opts w :
  let run := do env c ctx op variables opts w in
  (forall out data,
      enveloped env c ctx op variables opts w out ->
      Data out = Some data ->
      target run.2 = (jsonutil_UnmarshalGraphQL env data (target w)).1) /\
  ((forall out data,
       enveloped env c ctx op variables opts w out -> Data out <> Some data) ->
   target run.2 = target w).
Proof.
  intros run. subst run. split.
  - intros out data Henv Hdata.
    destruct (do_enveloped _ _ _ _ _ _ _ Henv) as (evs & req & _ & _ & ->).
    rewrite Hdata. simpl.
    destruct (jsonutil_UnmarshalGraphQL env data (target w)) as [t' [e|]];
      simpl; [done|]. by destruct (0 <? length (Errors out))%nat.
  - intros Hnone.
    destruct (do_total c ctx op variables opts w) as [Hearly | [out Henv]].
    { by destruct (do_early_failure _ _ _ _ _ _ Hearly) as (err & evs & -> & _). }
    destruct (do_enveloped _ _ _ _ _ _ _ Henv) as (evs & req & _ & _ & ->).
    destruct (Data out) as [data|] eqn:Hdata.
    + by destruct (Hnone out data Henv).
    + by destruct (0 <? length (Errors out))%nat.
Qed.

(** ** Reading the error a call returns *)

(** X6: a call returns an [OptionError] for one of two reasons only: a
    collaborator handed that very value back as its own error, or one of
    the call's options failed after the options before it had all
    returned nil, and [Unwrap] of the value is that option's error. *)
Theorem option_error_inversion c ctx op variables opts w
    (oe : @OptionError ExtErr) :
  (do env c ctx op variables opts w).1 = Some (OptionErrorPtr oe) ->
  handed_back env c ctx op variables opts w (OptionErrorPtr oe) \/
  exists req0 pre o post evs r r1 e,
    (build_request env c ctx op variables w).1 = inr req0 /\
    requestOptions c ++ opts = pre ++ o :: post /\
    opts_ok pre req0 evs r /\
    o r = (r1, Some e) /\
    OptionError_Unwrap oe = Some e.
Proof.
  intros Hret.
  destruct (do_error_sources _ _ _ _ _ _ _ Hret)
    as [Hback
       | [(req0 & pre & o & post & evs & r & r1 & e & Hb & Hsplit & Hpre & Ho & Hopt)
         | [(resp & _ & _ & Hfmt)
           | (out & _ & _ & _ & Hes)]]]; try discriminate.
  - by left.
  - right. injection Hopt as ->.
    by exists req0, pre, o, post, evs, r, r1, e.
Qed.

(** X8: a call returns a [GraphQLErrors] value for one of two reasons
    only: a collaborator handed that very value back as its own error,
    or the call got a 200 envelope whose data, if any, was materialized
    without failure; the value is then the envelope's errors array, it
    is not empty, and the target holds what the materializer made of the
    data. *)
Theorem protocol_errors_inversion c ctx op variables opts w
    (es : GraphQLErrors) :
  let run := do env c ctx op variables opts w in
  run.1 = Some (ProtocolErrors es) ->
  handed_back env c ctx op variables opts w (ProtocolErrors es) \/
  exists out,
    enveloped env c ctx op variables opts w out /\
    materializes env out (target w) /\
    es = Errors out /\
    es <> [] /\
    target run.2 =
      match Data out with
      | Some data => (jsonutil_UnmarshalGraphQL env data (target w)).1
      | None => target w
      end.
Proof.
  intros run Hret. subst run.
  destruct (do_error_sources _ _ _ _ _ _ _ Hret)
    as [Hback
       | [(req0 & pre & o & post & evs & r & r1 & e & _ & _ & _ & _ & Hopt)
         | [(resp & _ & _ & Hfmt)
           | (out & Henv & Hmat & Hne & Hes)]]]; try discriminate.
  - by left.
  - right. injection Hes as ->. exists out.
    split; [done|]. split; [done|]. split; [done|]. split; [done|].
    destruct (do_enveloped _ _ _ _ _ _ _ Henv) as (evs & req & _ & _ & ->).
    unfold materializes in Hmat.
    destruct (Data out) as [data|]; simpl.
    + rewrite Hmat. by destruct (0 <? length (Errors out))%nat.
    + by destruct (0 <? length (Errors out))%nat.
Qed.

(** ** The request a call builds, and who gets it *)


(** X2: a client made with a nil [httpClient] sends through
    [http.DefaultClient]: in [Query] and in [Mutate], the request left by
    the options goes to it, its failure is what the call returns, and its
    answer is what the call goes on with. *)
Theorem nil_client_uses_default u copts ctx variables opts w evs req :
  let c := NewClient env u None copts in
  (sends env c ctx queryOperation variables opts w evs req ->
   Client_Query env c ctx variables opts w =
     match http_DefaultClient env req with
     | inl e => (Some e, extend (evs ++ [EvDo req]) w)
     | inr resp =>
         returned (deferred (emit EvClose) (handle_response env resp)
                            (extend (evs ++ [EvDo req]) w))
     end) /\
  (sends env c ctx mutationOperation variables opts w evs req ->
   Client_Mutate env c ctx variables opts w =
     match http_DefaultClient env req with
     | inl e => (Some e, extend (evs ++ [EvDo req]) w)
     | inr resp =>
         returned (deferred (emit EvClose) (handle_response env resp)
                            (extend (evs ++ [EvDo req]) w))
     end).
Proof.
  intros c. subst c. split; intros Hs;
    unfold Client_Query, Client_Mutate;
    rewrite (do_reaches_transport _ _ _ _ _ _ _ _ Hs);
    unfold bind, try, fail, ret; simpl;
    by destruct (http_DefaultClient env req).
Qed.

(** X9: the operation kind reaches a call only through the document it
    selects: two kinds that compile to the same document make the same
    run.  In particular [Query] and [Mutate] are the same call whenever
    [constructQuery] and [constructMutation] agree. *)
Theorem operation_only_selects_document c ctx op1 op2 variables opts w :
  compile env op1 (target w) variables = compile env op2 (target w) variables ->
  do env c ctx op1 variables opts w = do env c ctx op2 variables opts w.
Proof.
  intros Hdoc. unfold do, do_M. unfold bind at 1 5.
  unfold build_request. by rewrite Hdoc.
Qed.

(** ** Bindings the codec refuses *)

Lemma marshal_members_fail kvs e :
  marshal_members env kvs = inl e ->
  exists k a, (k, a) ∈ kvs /\ json_Marshal_any env a = inl e.
Proof.
  induction kvs as [|[k a] kvs IH]; simpl; [done|].
  destruct (json_Marshal_any env a) as [e'|j] eqn:Ha.
  - intros [= <-]. exists k, a. split; [apply elem_of_cons; by left | done].
  - destruct (marshal_members env kvs) as [e'|js]; [|done].
    intros [= <-]. destruct (IH eq_refl) as (k' & a' & Hin & Ha').
    exists k', a'. split; [apply elem_of_cons; by right | done].
Qed.

Lemma marshal_members_refused kvs k a e :
  (k, a) ∈ kvs ->
  json_Marshal_any env a = inl e ->
  exists e', marshal_members env kvs = inl e'.
Proof.
  induction kvs as [|[k' a'] kvs IH]; simpl; intros Hin Ha.
  - by apply elem_of_nil in Hin.
  - apply elem_of_cons in Hin as [[= <- <-] | Hin].
    + rewrite Ha. by eexists.
    + destruct (json_Marshal_any env a'); [by eexists|].
      destruct (IH Hin Ha) as [e' ->]. by eexists.
Qed.

(** X10: encoding the envelope fails only because of a binding: when
    every bound value is accepted by the codec (in particular for nil or
    empty bindings) the envelope is encoded; when some bound value is
    refused, the call returns the codec's error for a refused value
    at once, with no collaborator called and the target untouched. *)
Theorem encoding_fails_only_on_bindings c ctx op variables opts w :
  ((forall m k a,
       variables = Some m -> m !! k = Some a ->
       exists j, json_Marshal_any env a = inr j) ->
   exists buf,
     json_Encode env {| Query := compile env op (target w) variables;
                        Variables := variables |} = inr buf) /\
  (forall m k a e,
      variables = Some m -> m !! k = Some a ->
      json_Marshal_any env a = inl e ->
      exists k' a' e',
        m !! k' = Some a' /\
        json_Marshal_any env a' = inl e' /\
        do env c ctx op variables opts w = (Some e', w)).
Proof.
  split.
  - intros Hall. unfold json_Encode, marshal_in. simpl.
    destruct (isEmptyValue variables); [by eexists|].
    destruct variables as [m|]; simpl; [|by eexists].
    destruct (marshal_members env (sorted_entries m)) as [e|js] eqn:Hm;
      [|by eexists].
    destruct (marshal_members_fail _ _ Hm) as (k & a & Hin & Ha).
    apply sorted_entries_elem in Hin.
    destruct (Hall m k a eq_refl Hin) as [j Hj]. congruence.
  - intros m k a e -> Hk Ha.
    assert (isEmptyValue (Some m) = false) as Hne.
    { unfold isEmptyValue, map_len. apply Nat.eqb_neq. intros Hsize.
      apply map_size_empty_inv in Hsize. subst m.
      by rewrite lookup_empty in Hk. }
    apply sorted_entries_elem in Hk.
    destruct (marshal_members_refused _ _ _ _ Hk Ha) as [e' Hm].
    destruct (marshal_members_fail _ _ Hm) as (k' & a' & Hin & Ha').
    apply sorted_entries_elem in Hin.
    exists k', a', e'. split; [done|]. split; [done|].
    apply do_encode_fail. unfold json_Encode, marshal_in. simpl.
    by rewrite Hne, Hm.
Qed.

End Properties.


(** * The theorems at work on the concrete collaborators *)

Ltac demo_sends :=
  eexists _, _, _, _;
  split; [vm_compute; reflexivity|];
  split; [repeat econstructor|];
  split; [repeat econstructor | reflexivity].

Ltac demo_answered :=
  eexists _, _; split; [demo_sends | reflexivity].

Ltac demo_enveloped :=
  eexists; split; [demo_answered | split; reflexivity].

Import Demo.

(** A 200 answer with data and two errors: the target is overwritten and the
    errors come back. *)
Lemma data_with_errors_is_failure_witness :
  let run := do env (client (ok [x01]) [with_header "Authorization" "token"])
                tt queryOperation bindings [] start in
  target run.2 = "hi" /\ run.1 = Some (ProtocolErrors [boom; later]).
Proof.
  destruct (data_with_errors_is_failure env
              (client (ok [x01]) [with_header "Authorization" "token"])
              tt queryOperation bindings [] start
              {| Data := Some [x68; x69]; Errors := [boom; later] |} [x68; x69])
    as (Ht & _ & Hr & _).
  - demo_enveloped.
  - reflexivity.
  - discriminate.
  - split; [exact Ht | exact Hr].
Defined.

(** A 200 answer with errors and no data: the errors come back and the
    target stays. *)
Lemma null_data_with_errors_witness :
  let run := do env (client (ok [x02]) []) tt mutationOperation None
                [with_header "X-Trace" "1"] start in
  run.1 = Some (ProtocolErrors [boom; later]) /\ target run.2 = "before".
Proof.
  destruct (null_data_with_errors env (client (ok [x02]) []) tt
              mutationOperation None [with_header "X-Trace" "1"] start
              {| Data := None; Errors := [boom; later] |})
    as (Hr & Ht & _).
  - demo_enveloped.
  - reflexivity.
  - discriminate.
  - split; [exact Hr | exact Ht].
Defined.

(** No errors give nil; two errors come back as one value that reports the
    first message. *)
Lemma errors_aggregation_witness :
  (do env (client (ok [x03]) []) tt queryOperation bindings [] start).1 = None /\
  (do env (client (ok [x01]) []) tt queryOperation bindings [] start).1 =
    Some (ProtocolErrors [boom; later]) /\
  GraphQLErrors_Error [boom; later] = Returned "boom".
Proof.
  split.
  - apply (errors_aggregation env (client (ok [x03]) []) tt queryOperation
             bindings [] start {| Data := Some [x68; x69]; Errors := [] |});
      [demo_enveloped | reflexivity | reflexivity].
  - apply (errors_aggregation env (client (ok [x01]) []) tt queryOperation
             bindings [] start
             {| Data := Some [x68; x69]; Errors := [boom; later] |});
      [demo_enveloped | reflexivity | reflexivity].
Defined.

(** A 418 answer: the error names the status line and the body. *)
Lemma non_success_status_witness :
  let run := do env (client teapot []) tt queryOperation bindings [] start in
  run.1 = Some (FmtError ("non-200 OK status code: 418 I'm a teapot body: "
                          +:+ dq +:+ "no" +:+ dq)) /\
  target run.2 = "before".
Proof.
  destruct (non_success_status env (client teapot []) tt queryOperation
              bindings [] start
              {| Status := "418 I'm a teapot"; StatusCode := 418;
                 RespBody := {| content := [x6e; x6f]; read_err := None |} |})
    as (Hr & _ & Ht).
  - demo_answered.
  - discriminate.
  - split; [exact Hr | exact Ht].
Defined.

(** Data the materializer refuses, next to an error from the server. *)
Lemma materializer_error_wins_witness :
  (do env (client (ok [x04]) []) tt queryOperation bindings [] start).1 =
    Some (Foreign "unexpected end of JSON input").
Proof.
  apply (materializer_error_wins env (client (ok [x04]) []) tt queryOperation
           bindings [] start {| Data := Some []; Errors := [boom] |} []);
    [demo_enveloped | reflexivity | reflexivity | discriminate].
Defined.

(** The errors a run returned have a first element, or were handed
    back. *)
Lemma returned_errors_nonempty_or_handed_back_witness :
  handed_back env (client (ok [x02]) []) tt queryOperation bindings []
              start (ProtocolErrors [boom; later]) \/
  ((0 < length [boom; later])%nat /\
   exists g, [boom; later] !! 0%nat = Some g /\
             GraphQLErrors_Error [boom; later] = Returned (Message g)).
Proof.
  apply (returned_errors_nonempty_or_handed_back env (client (ok [x02]) [])
           tt queryOperation bindings [] start).
  vm_compute. reflexivity.
Defined.

(** A 200 answer whose body reader fails with an empty [GraphQLErrors]
    value: the decoder hands it back, the call returns it, and its
    [Error] method panics. *)
Lemma empty_errors_returned :
  exists es : GraphQLErrors,
    (do env (client unreadable []) tt queryOperation bindings [] start).1
      = Some (ProtocolErrors es) /\
    length es = 0%nat /\
    GraphQLErrors_Error es
      = Panicked "runtime error: index out of range [0] with length 0".
Proof. exists []. vm_compute. repeat split. Qed.

(** A failing call option after a client option; and two options that both
    reach the request sent. *)
Lemma options_in_order_witness :
  let run := do env (client teapot [with_header "Authorization" "token"])
                tt queryOperation bindings
                [failing "denied"; with_header "X-Trace" "1"] start in
  let run' := do env (client teapot [with_header "Authorization" "token"])
                 tt queryOperation bindings [with_header "X-Trace" "1"] start in
  (exists oe, run.1 = Some (OptionErrorPtr oe) /\
              OptionError_Unwrap oe = Some (FmtError "denied")) /\
  count_Do (trace run.2) = 0%nat /\
  exists evs1 evs2 req later,
    trace run'.2 = trace start ++ evs1 ++ evs2 ++ EvDo req :: later /\
    length evs1 = 1%nat /\ length evs2 = 1%nat /\
    Header req !! "Authorization" = Some ["token"] /\
    Header req !! "X-Trace" = Some ["1"].
Proof.
  intros run run'. subst run run'. split; [|split].
  - edestruct (options_in_order env
                 (client teapot [with_header "Authorization" "token"])
                 tt queryOperation bindings
                 [failing "denied"; with_header "X-Trace" "1"] start)
      as [_ Hfail].
    { vm_compute. reflexivity. }
    edestruct (Hfail [with_header "Authorization" "token"] (failing "denied")
                 [with_header "X-Trace" "1"]) as (Hoe & _ & _).
    { reflexivity. }
    { repeat econstructor. }
    { reflexivity. }
    exact Hoe.
  - edestruct (options_in_order env
                 (client teapot [with_header "Authorization" "token"])
                 tt queryOperation bindings
                 [failing "denied"; with_header "X-Trace" "1"] start)
      as [_ Hfail].
    { vm_compute. reflexivity. }
    edestruct (Hfail [with_header "Authorization" "token"] (failing "denied")
                 [with_header "X-Trace" "1"]) as (_ & _ & Hc).
    { reflexivity. }
    { repeat econstructor. }
    { reflexivity. }
    exact Hc.
  - edestruct (options_in_order env
                 (client teapot [with_header "Authorization" "token"])
                 tt queryOperation bindings [with_header "X-Trace" "1"] start)
      as [Hall _].
    { vm_compute. reflexivity. }
    edestruct Hall as (later & Ht & _).
    { repeat econstructor. }
    { repeat econstructor. }
    eexists _, _, _, later. split; [exact Ht|].
    split; [reflexivity|]. split; [reflexivity|].
    split; vm_compute; reflexivity.
Defined.

(** The payload built for two bindings. *)
Lemma wire_payload_witness :
  exists req0 payload kvs,
    (build_request env (client teapot []) tt queryOperation bindings start).1 =
      inr req0 /\
    Body req0 = render payload ++ [x0a] /\
    member "query" payload = Some (JString "{viewer{login}}") /\
    member "variables" payload = Some (JObject kvs) /\
    assoc "n" kvs = Some (JNumber "5").
Proof.
  eassert ((build_request env (client teapot []) tt queryOperation bindings
              start).1 = inr _) as Hb.
  { vm_compute. reflexivity. }
  destruct (wire_payload env (client teapot []) tt queryOperation bindings
              start _ Hb)
    as (payload & doc & Hbody & Hq & _ & Hmem & _ & Hvars).
  destruct (Hvars bound eq_refl (insert_non_empty _ _ _))
    as (kvs & _ & Hv & _ & Hlook).
  specialize (Hlook "n").
  assert (bound !! "n" = Some (VInt 5)) as Hn by (vm_compute; reflexivity).
  rewrite Hn in Hlook.
  eexists _, payload, kvs. split; [exact Hb|]. split; [exact Hbody|].
  split; [by rewrite Hmem, (Hq eq_refl)|]. split; [exact Hv|].
  destruct (assoc "n" kvs) as [j|]; [|discriminate].
  vm_compute in Hlook. congruence.
Defined.

(** One run for each early failure. *)
Lemma early_failure_keeps_target_witness :
  target (do env (client teapot []) tt queryOperation refused [] start).2
    = "before" /\
  target (do env (NewClient env ":" None []) tt queryOperation bindings []
             start).2 = "before" /\
  target (do env (client teapot []) tt queryOperation bindings
             [failing "denied"] start).2 = "before" /\
  target (do env (client (inl (failure "connection refused")) []) tt queryOperation
             bindings [] start).2 = "before" /\
  target (do env (client teapot []) tt queryOperation bindings [] start).2
    = "before" /\
  target (do env (client (ok [x05]) []) tt queryOperation bindings []
             start).2 = "before".
Proof.
  refine (conj _ (conj _ (conj _ (conj _ (conj _ _))))).
  - apply (early_failure_keeps_target env (client teapot []) tt queryOperation
             refused [] start).
    eapply fails_encoding. vm_compute. reflexivity.
  - apply (early_failure_keeps_target env (NewClient env ":" None []) tt
             queryOperation bindings [] start).
    eapply fails_construction; vm_compute; reflexivity.
  - apply (early_failure_keeps_target env (client teapot []) tt queryOperation
             bindings [failing "denied"] start).
    eapply fails_option with (pre := []) (o := failing "denied") (post := []);
      [vm_compute; reflexivity | reflexivity | constructor | reflexivity].
  - apply (early_failure_keeps_target env
             (client (inl (failure "connection refused")) []) tt queryOperation
             bindings [] start).
    eapply fails_transport; [demo_sends | reflexivity].
  - apply (early_failure_keeps_target env (client teapot []) tt queryOperation
             bindings [] start).
    eapply fails_status; [demo_answered | discriminate].
  - apply (early_failure_keeps_target env (client (ok [x05]) []) tt
             queryOperation bindings [] start).
    eapply fails_parse; [demo_answered | reflexivity | reflexivity].
Defined.

(** ** The further properties at work *)


(** A query through a client made without a transport. *)
Lemma nil_client_uses_default_witness :
  (Client_Query env (NewClient env "https://example.test/graphql" None [])
     tt bindings [with_header "X-Trace" "1"] start).1
  = Some (Foreign "no network").
Proof.
  epose proof (proj1 (nil_client_uses_default env
                        "https://example.test/graphql" [] tt bindings
                        [with_header "X-Trace" "1"] start _ _)) as Hq.
  rewrite Hq; [reflexivity | demo_sends].
Defined.

(** The option behind a returned [OptionError]. *)
Lemma option_error_inversion_witness :
  handed_back env (client teapot [with_header "Authorization" "token"])
              tt queryOperation bindings
              [failing "denied"; with_header "X-Trace" "1"] start
              (OptionErrorPtr (mkOptionError (Some (FmtError "denied")))) \/
  exists pre o post,
    [with_header "Authorization" "token"]
      ++ [failing "denied"; with_header "X-Trace" "1"] = pre ++ o :: post /\
    exists r r1, o r = (r1, Some (FmtError "denied")).
Proof.
  destruct (option_error_inversion env
              (client teapot [with_header "Authorization" "token"])
              tt queryOperation bindings
              [failing "denied"; with_header "X-Trace" "1"] start
              (mkOptionError (Some (FmtError "denied"))))
    as [Hback
       | (req0 & pre & o & post & evs & r & r1 & e & _ & Hsplit & _ & Ho & Hu)].
  { vm_compute. reflexivity. }
  - left. exact Hback.
  - right. injection Hu as <-. exists pre, o, post. split; [exact Hsplit|].
    by exists r, r1.
Defined.

(** The envelope behind returned server errors. *)
Lemma protocol_errors_inversion_witness :
  handed_back env (client (ok [x01]) []) tt queryOperation bindings []
              start (ProtocolErrors [boom; later]) \/
  exists out,
    [boom; later] = Errors out /\ materializes env out "before".
Proof.
  destruct (protocol_errors_inversion env (client (ok [x01]) []) tt
              queryOperation bindings [] start [boom; later])
    as [Hback | (out & _ & Hmat & Hes & _)].
  { vm_compute. reflexivity. }
  - left. exact Hback.
  - right. exists out. split; [exact Hes | exact Hmat].
Defined.

(** [Query] and [Mutate] when both compile the same document. *)
Lemma operation_only_selects_document_witness :
  Client_Query env_same (client (ok [x01]) []) tt bindings [] start =
  Client_Mutate env_same (client (ok [x01]) []) tt bindings [] start.
Proof.
  apply (operation_only_selects_document env_same (client (ok [x01]) []) tt
           queryOperation mutationOperation bindings [] start).
  reflexivity.
Defined.

(** A refused binding stops the call before anything happens. *)
Lemma encoding_fails_only_on_bindings_witness :
  do env (client teapot []) tt queryOperation refused
     [with_header "X-Trace" "1"] start
  = (Some (failure "json: unsupported type: chan int"), start).
Proof.
  destruct (proj2 (encoding_fails_only_on_bindings env (client teapot []) tt
                     queryOperation refused [with_header "X-Trace" "1"] start)
              {[ "n" := VChan ]} "n" VChan
              (failure "json: unsupported type: chan int")
              eq_refl eq_refl eq_refl)
    as (k' & a' & e' & _ & Ha & Hrun).
  rewrite Hrun. simpl in Ha.
  destruct a'; simpl in Ha; [discriminate|]. by injection Ha as <-.
Defined.
